(** * turbo-response: a shallow embedding of the result algebra

    The TypeScript sources [src/TurboResponse.ts] (the two-variant result
    type and its combinators) and the [TurboException] class are embedded
    as Rocq definitions, and the properties stated about them are proved.

    Modelling choices, all read off the sources.

    - A JavaScript object has an identity: [a === b] on objects compares
      addresses.  Every field of [Success] and [Fail] is [readonly], so an
      object is modelled by its address together with its fields; the
      constructors [success] and [fail] evaluate an object literal, that is,
      they take the next free address of the store.  Returning an object
      that already exists returns the same address and allocates nothing.
    - Callbacks are arbitrary JavaScript functions: they may change the
      world, allocate, or throw.  A computation is therefore a function from
      the store to an outcome (a returned value or a thrown value) and the
      store it leaves behind.
    - [unknown] is the type of every JavaScript value; [undefined] and
      [null] are told apart from the other values, which stay opaque.
    - An [async] function body runs sequentially; [await p] resumes with the
      value [p] is fulfilled with and throws the value [p] is rejected with.
      A promise is modelled by the computation that settles it; scheduling of
      unrelated tasks between two awaits is outside the model. *)

From Stdlib Require Import List String Bool Arith.
Import ListNotations.

Set Implicit Arguments.

(** ** JavaScript values *)

(** Address of an object in the store. *)
Definition addr := nat.

(** TypeScript's [unknown]: [undefined], [null], or any other value. *)
Inductive unknown (value : Type) : Type :=
| Undefined
| Null
| Defined (v : value).

Arguments Undefined {value}.
Arguments Null {value}.
Arguments Defined {value} v.

(** ** src/TurboResponse.ts *)

Module TurboResponse.

Section Model.

Variable value : Type.   (* the JavaScript values other than undefined and null *)
Variable World : Type.   (* whatever the callbacks can observe and change *)

(** *** Computations: store passing with thrown values *)

Record Store : Type := mkStore {
  world : World;
  next_addr : addr
}.

Inductive Outcome (A : Type) : Type :=
| Returned (a : A)
| Thrown (e : unknown value).

Arguments Thrown {A} e.

Definition M (A : Type) : Type := Store -> Outcome A * Store.

Definition ret {A} (a : A) : M A :=
  fun st => (Returned a, st).

(** [throw e]: the JavaScript statement of that name. *)
Definition throw {A} (e : unknown value) : M A :=
  fun st => (Thrown e, st).

Definition bind {A B} (c : M A) (k : A -> M B) : M B :=
  fun st =>
    match c st with
    | (Returned a, st') => k a st'
    | (Thrown e, st') => (Thrown e, st')
    end.

Local Notation "x <- c ;; k" := (bind c (fun x => k))
  (at level 61, c at next level, right associativity).

(** [await p] inside an [async] function. *)
Definition await {A} (p : M A) : M A := p.

(** Evaluating an object literal takes the next free address. *)
Definition alloc : M addr :=
  fun st => (Returned (next_addr st), mkStore (world st) (S (next_addr st))).

(** *** The data model *)

(** [interface Success<T>]; the tag is the constructor [IsSuccess] below. *)
Record Success (T : Type) : Type := mkSuccess {
  s_addr : addr;
  result : T;
  s_title : option string;
  s_message : option string
}.

(** [interface Fail<_T>]: the type parameter is phantom, so the record has
    none and the cast [r as unknown as Fail<R>] is the identity. *)
Record Fail : Type := mkFail {
  f_addr : addr;
  error : unknown value;
  stackTrace : option string;
  f_title : option string;
  f_message : option string
}.

(** [type TurboResponse<T> = Success<T> | Fail<T>] *)
Inductive TurboResponse (T : Type) : Type :=
| IsSuccess (s : Success T)
| IsFail (f : Fail).

Arguments IsFail {T} f.

(** *** Constructors and guards *)

Definition success {T} (result : T) (title message : option string) : M (Success T) :=
  a <- alloc ;;
  ret (mkSuccess a result title message).

Definition fail (error : unknown value) (title message stackTrace : option string) : M Fail :=
  a <- alloc ;;
  ret (mkFail a error stackTrace title message).

Definition isSuccess {T} (r : TurboResponse T) : bool :=
  match r with IsSuccess _ => true | IsFail _ => false end.

Definition isFail {T} (r : TurboResponse T) : bool :=
  match r with IsSuccess _ => false | IsFail _ => true end.

Definition getTitle {T} (r : TurboResponse T) : option string :=
  match r with IsSuccess s => s_title s | IsFail f => f_title f end.

Definition getMessage {T} (r : TurboResponse T) : option string :=
  match r with IsSuccess s => s_message s | IsFail f => f_message f end.

(** *** Pattern matching *)

(** The handler object of [maybeWhen]: [success] and [fail] are optional
    properties (a function is truthy, a missing property is not). *)
Record MaybeHandlers (T R : Type) : Type := mkMaybeHandlers {
  on_success : option (Success T -> M R);
  on_fail : option (Fail -> M R);
  orElse : unit -> M R
}.

Definition maybeWhen {T R} (response : TurboResponse T) (handlers : MaybeHandlers T R) : M R :=
  match response, on_success handlers with
  | IsSuccess s, Some handler => handler s
  | _, _ =>
      match response, on_fail handlers with
      | IsFail f, Some handler => handler f
      | _, _ => orElse handlers tt
      end
  end.

(** *** Transformation and chaining *)

Definition mapSuccess {T R} (r : TurboResponse T) (fn : T -> M R) : M (TurboResponse R) :=
  match r with
  | IsSuccess s =>
      x <- fn (result s) ;;
      s' <- success x (s_title s) (s_message s) ;;
      ret (IsSuccess s')
  | IsFail f => ret (IsFail f)
  end.

Definition andThen {T R} (r : TurboResponse T) (fn : T -> M (TurboResponse R)) : M (TurboResponse R) :=
  match r with
  | IsSuccess s => fn (result s)
  | IsFail f => ret (IsFail f)
  end.

Definition andThenAsync {T R} (r : TurboResponse T) (fn : T -> M (TurboResponse R)) : M (TurboResponse R) :=
  match r with
  | IsSuccess s => await (fn (result s))
  | IsFail f => ret (IsFail f)
  end.

Definition mapFail {T} (r : TurboResponse T) (fn : unknown value -> M (unknown value)) : M (TurboResponse T) :=
  match r with
  | IsFail f =>
      e <- fn (error f) ;;
      f' <- fail e (f_title f) (f_message f) (stackTrace f) ;;
      ret (IsFail f')
  | IsSuccess _ => ret r
  end.

Definition unwrap {T} (r : TurboResponse T) : M T :=
  match r with
  | IsSuccess s => ret (result s)
  | IsFail f => throw (error f)
  end.

Definition recover {T} (r : TurboResponse T) (fn : unknown value -> M (TurboResponse T)) : M (TurboResponse T) :=
  match r with
  | IsFail f => fn (error f)
  | IsSuccess _ => ret r
  end.

Definition recoverAsync {T} (r : TurboResponse T) (fn : unknown value -> M (TurboResponse T)) : M (TurboResponse T) :=
  match r with
  | IsFail f => await (fn (error f))
  | IsSuccess _ => ret r
  end.

Definition ensure {T} (r : TurboResponse T) (predicate : T -> M bool) (error : unknown value) : M (TurboResponse T) :=
  match r with
  | IsSuccess s =>
      ok <- predicate (result s) ;;
      if negb ok
      then f <- fail error (s_title s) (s_message s) None ;; ret (IsFail f)
      else ret r
  | IsFail _ => ret r
  end.

(** *** Batch combination *)

(** The [for ... of] loop of [traverse]; [results] is the local array, and
    [results.push(x)] appends at its end. *)
Fixpoint traverse_loop {T R} (fn : T -> M (TurboResponse R)) (items : list T) (results : list R)
  : M (TurboResponse (list R)) :=
  match items with
  | [] => s <- success results None None ;; ret (IsSuccess s)
  | item :: rest =>
      response <- await (fn item) ;;
      match response with
      | IsFail f => ret (IsFail f)
      | IsSuccess s => traverse_loop fn rest (results ++ [result s])
      end
  end.

Definition traverse {T R} (items : list T) (fn : T -> M (TurboResponse R)) : M (TurboResponse (list R)) :=
  traverse_loop fn items [].

(** The [for ... of] loop of [sequence]. *)
Fixpoint sequence_loop {T} (responses : list (TurboResponse T)) (results : list T)
  : M (TurboResponse (list T)) :=
  match responses with
  | [] => s <- success results None None ;; ret (IsSuccess s)
  | response :: rest =>
      match response with
      | IsFail f => ret (IsFail f)
      | IsSuccess s => sequence_loop rest (results ++ [result s])
      end
  end.

Definition sequence {T} (responses : list (TurboResponse T)) : M (TurboResponse (list T)) :=
  sequence_loop responses [].

(** *** The remaining operations of the module *)

(** The handler object of [when]: both handlers are mandatory. *)
Record Handlers (T R : Type) : Type := mkHandlers {
  h_success : Success T -> M R;
  h_fail : Fail -> M R
}.

Definition when {T R} (response : TurboResponse T) (handlers : Handlers T R) : M R :=
  match response with
  | IsSuccess s => h_success handlers s
  | IsFail f => h_fail handlers f
  end.

Definition fold {T R} (response : TurboResponse T)
    (onSuccess : T -> M R) (onFail : unknown value -> M R) : M R :=
  match response with
  | IsSuccess s => onSuccess (result s)
  | IsFail f => onFail (error f)
  end.

Definition unwrapOr {T} (r : TurboResponse T) (defaultValue : T) : T :=
  match r with
  | IsSuccess s => result s
  | IsFail _ => defaultValue
  end.

Definition unwrapOrCompute {T} (r : TurboResponse T) (compute : unit -> M T) : M T :=
  match r with
  | IsSuccess s => ret (result s)
  | IsFail _ => compute tt
  end.

(** [swap] stores a result in an [error] field and reads an error back as
    a result; the cast [r.error as T] is unchecked, so the payload type is
    the type of all values, at which both casts are the identity.
    [fail(r.result, r.title, r.message)] passes no stackTrace. *)
Definition swap (r : TurboResponse (unknown value)) : M (TurboResponse (unknown value)) :=
  match r with
  | IsSuccess s =>
      f <- fail (result s) (s_title s) (s_message s) None ;;
      ret (IsFail f)
  | IsFail f =>
      s <- success (error f) (f_title f) (f_message f) ;;
      ret (IsSuccess s)
  end.

(** [getResult] returns [T | undefined]: [None] is the [undefined] given for
    a Fail.  The tag is the model's: the caller gets a bare value, and when
    the payload of a Success is itself [undefined] that value is the one
    given for a Fail ([or_undefined] below forgets the tag). *)
Definition getResult {T} (r : TurboResponse T) : option T :=
  match r with
  | IsSuccess s => Some (result s)
  | IsFail _ => None
  end.

(** The value a caller holds for a [T | undefined], at the type of all
    values. *)
Definition or_undefined (x : option (unknown value)) : unknown value :=
  match x with
  | Some v => v
  | None => Undefined
  end.

(** [getError] returns [unknown | undefined], which is [unknown]. *)
Definition getError {T} (r : TurboResponse T) : unknown value :=
  match r with
  | IsFail f => error f
  | IsSuccess _ => Undefined
  end.

(** *** Specification vocabulary *)

(** [calls_succeed fn items st] runs [fn] on [items] one after the other from
    the store [st], as long as each call returns a Success: it gives the
    payloads in call order with the store after the last call, and [None]
    as soon as a call returns a Fail or throws. *)
Fixpoint calls_succeed {T R} (fn : T -> M (TurboResponse R)) (items : list T) (st : Store)
  : option (list R * Store) :=
  match items with
  | [] => Some ([], st)
  | item :: rest =>
      match fn item st with
      | (Returned (IsSuccess s), st1) =>
          match calls_succeed fn rest st1 with
          | Some (rs, st2) => Some (result s :: rs, st2)
          | None => None
          end
      | _ => None
      end
  end.

(** *** Guards *)

(** The two guards are exclusive and exhaustive, and each tells the
    constructor: the conditionals of the sources on [isSuccess(r)] and
    [isFail(r)] are the [match]es of the embedding. *)
Lemma guards_tell_the_variant T (r : TurboResponse T) :
  isFail r = negb (isSuccess r)
  /\ (isSuccess r = true <-> exists s, r = IsSuccess s)
  /\ (isFail r = true <-> exists f, r = IsFail f).
Proof.
  destruct r as [s|f]; simpl; repeat split;
    try discriminate; eauto; intros [x H]; discriminate.
Qed.

(** *** Lemmas on the two loops *)

Lemma sequence_loop_successes T (ss : list (Success T)) :
  forall (rest : list (TurboResponse T)) (acc : list T) (st : Store),
    sequence_loop (map (@IsSuccess T) ss ++ rest) acc st
    = sequence_loop rest (acc ++ map (@result T) ss) st.
Proof.
  induction ss as [|s ss IH]; intros rest acc st; simpl.
  - now rewrite app_nil_r.
  - rewrite IH, <- app_assoc. reflexivity.
Qed.

Lemma responses_split T (rs : list (TurboResponse T)) :
  (exists ss, rs = map (@IsSuccess T) ss)
  \/ (exists ss f rest, rs = map (@IsSuccess T) ss ++ IsFail f :: rest).
Proof.
  induction rs as [|r rs IH].
  - left. now exists [].
  - destruct r as [s|f].
    + destruct IH as [[ss ->]|(ss & f & rest & ->)].
      * left. now exists (s :: ss).
      * right. now exists (s :: ss), f, rest.
    + right. now exists [], f, rs.
Qed.

Lemma traverse_loop_successes T R (fn : T -> M (TurboResponse R)) (pre : list T) :
  forall (rest : list T) (acc : list R) (st : Store) (rs : list R) (st1 : Store),
    calls_succeed fn pre st = Some (rs, st1) ->
    traverse_loop fn (pre ++ rest) acc st = traverse_loop fn rest (acc ++ rs) st1.
Proof.
  induction pre as [|item pre IH]; intros rest acc st rs st1 H; simpl in *.
  - injection H as <- <-. now rewrite app_nil_r.
  - unfold bind, await.
    destruct (fn item st) as [[[s|f]|e] st2]; try discriminate.
    destruct (calls_succeed fn pre st2) as [[rs' st3]|] eqn:E; try discriminate.
    injection H as <- <-.
    rewrite (IH rest _ _ _ _ E), <- app_assoc. reflexivity.
Qed.

Lemma calls_succeed_log T R (fn : T -> M (TurboResponse R)) (calls : World -> list T) :
  (forall item st, calls (world (snd (fn item st))) = calls (world st) ++ [item]) ->
  forall pre st rs st1,
    calls_succeed fn pre st = Some (rs, st1) ->
    calls (world st1) = calls (world st) ++ pre.
Proof.
  intros Hlog. induction pre as [|item pre IH]; intros st rs st1 H; simpl in *.
  - injection H as <- <-. now rewrite app_nil_r.
  - specialize (Hlog item st).
    destruct (fn item st) as [[[s|f]|e] st2]; try discriminate.
    destruct (calls_succeed fn pre st2) as [[rs' st3]|] eqn:E; try discriminate.
    injection H as <- <-.
    rewrite (IH _ _ _ E). simpl in Hlog. rewrite Hlog, <- app_assoc. reflexivity.
Qed.

(** Every run of [fn] over a list either succeeds throughout, or has a
    first call that returns a Fail or throws. *)
Lemma calls_succeed_cases T R (fn : T -> M (TurboResponse R)) (items : list T) :
  forall st : Store,
    (exists rs st1, calls_succeed fn items st = Some (rs, st1))
    \/ (exists pre x post rs st1,
          items = pre ++ x :: post
          /\ calls_succeed fn pre st = Some (rs, st1)
          /\ ((exists f st2, fn x st1 = (Returned (IsFail f), st2))
              \/ (exists e st2, fn x st1 = (Thrown e, st2)))).
Proof.
  induction items as [|item items IH]; intros st.
  - left. now exists [], st.
  - destruct (fn item st) as [[[s|f]|e] st2] eqn:E.
    + destruct (IH st2) as [(rs & st1 & H)|(pre & x & post & rs & st1 & -> & H & Hx)].
      * left. exists (result s :: rs), st1. simpl. now rewrite E, H.
      * right. exists (item :: pre), x, post, (result s :: rs), st1.
        split; [reflexivity|]. split; [|exact Hx]. simpl. now rewrite E, H.
    + right. exists [], item, items, [], st. repeat split.
      left. now exists f, st2.
    + right. exists [], item, items, [], st. repeat split.
      right. now exists e, st2.
Qed.

(** *** Properties *)

(** C1. [sequence] scans the list in input order.  At the first Fail it
    returns that very object (same address, same error, title, message and
    stackTrace) and allocates nothing: the store is left as it was.  When no
    element is a Fail it returns a freshly allocated Success, without title
    or message, wrapping the payloads in input order; in particular the empty
    list gives a Success of the empty list.  Every list of results has one of
    the two shapes. *)
Theorem sequence_first_fail_or_all_results T (st : Store) :
  (forall (ss : list (Success T)) (f : Fail) (rest : list (TurboResponse T)),
      sequence (map (@IsSuccess T) ss ++ IsFail f :: rest) st
      = (Returned (IsFail f), st))
  /\ (forall ss : list (Success T),
      sequence (map (@IsSuccess T) ss) st
      = (Returned (IsSuccess (mkSuccess (next_addr st) (map (@result T) ss) None None)),
         mkStore (world st) (S (next_addr st))))
  /\ sequence (@nil (TurboResponse T)) st
     = (Returned (IsSuccess (mkSuccess (next_addr st) (@nil T) None None)),
        mkStore (world st) (S (next_addr st)))
  /\ (forall rs : list (TurboResponse T),
      (exists ss, rs = map (@IsSuccess T) ss)
      \/ (exists ss f rest, rs = map (@IsSuccess T) ss ++ IsFail f :: rest)).
Proof.
  repeat split.
  - intros ss f rest. unfold sequence.
    rewrite sequence_loop_successes. reflexivity.
  - intros ss. unfold sequence.
    rewrite <- (app_nil_r (map (@IsSuccess T) ss)), sequence_loop_successes.
    reflexivity.
  - apply responses_split.
Qed.

(** C2. [traverse] calls [fn] on the items in input order, and on an item
    only after every earlier call returned a Success.  For every [fn]: when
    the calls on all the items return Successes, the outcome is a freshly
    allocated Success wrapping the payloads in input order; when the calls
    on [pre] return Successes and the call on the next item [x] returns a
    Fail, [traverse] returns that very Fail and stops in the store that
    call left, whatever a call on a later item would have done.  For an
    [fn] that moreover records each of its calls in a log [calls] of the
    world, the log after [traverse] has grown by exactly the items in the
    first case and by exactly [pre ++ [x]] in the second: no item after [x]
    has been passed to [fn].  Every run is of one of these two kinds, or
    has a first call that throws. *)
Theorem traverse_sequential_until_first_fail T R (fn : T -> M (TurboResponse R)) :
  (forall (pre : list T) (st : Store) (rs : list R) (st1 : Store),
      calls_succeed fn pre st = Some (rs, st1) ->
      traverse pre fn st
      = (Returned (IsSuccess (mkSuccess (next_addr st1) rs None None)),
         mkStore (world st1) (S (next_addr st1)))
      /\ (forall (x : T) (post : list T) (f : Fail) (st2 : Store),
            fn x st1 = (Returned (IsFail f), st2) ->
            traverse (pre ++ x :: post) fn st = (Returned (IsFail f), st2))
      /\ (forall calls : World -> list T,
            (forall item st0,
                calls (world (snd (fn item st0))) = calls (world st0) ++ [item]) ->
            calls (world (snd (traverse pre fn st))) = calls (world st) ++ pre
            /\ (forall (x : T) (post : list T) (f : Fail) (st2 : Store),
                  fn x st1 = (Returned (IsFail f), st2) ->
                  calls (world (snd (traverse (pre ++ x :: post) fn st)))
                  = calls (world st) ++ pre ++ [x])))
  /\ (forall (items : list T) (st : Store),
      (exists rs st1, calls_succeed fn items st = Some (rs, st1))
      \/ (exists pre x post rs st1,
            items = pre ++ x :: post
            /\ calls_succeed fn pre st = Some (rs, st1)
            /\ ((exists f st2, fn x st1 = (Returned (IsFail f), st2))
                \/ (exists e st2, fn x st1 = (Thrown e, st2))))).
Proof.
  split; [|intros items st; apply calls_succeed_cases].
  intros pre st rs st1 H.
  assert (Hall : traverse pre fn st
                 = (Returned (IsSuccess (mkSuccess (next_addr st1) rs None None)),
                    mkStore (world st1) (S (next_addr st1)))).
  { unfold traverse.
    rewrite <- (app_nil_r pre), (traverse_loop_successes fn pre [] [] st H).
    reflexivity. }
  assert (Hstop : forall x post f st2,
             fn x st1 = (Returned (IsFail f), st2) ->
             traverse (pre ++ x :: post) fn st = (Returned (IsFail f), st2)).
  { intros x post f st2 Hx. unfold traverse.
    rewrite (traverse_loop_successes fn pre (x :: post) [] st H).
    simpl. unfold bind, await. rewrite Hx. reflexivity. }
  split; [exact Hall|]. split; [exact Hstop|].
  intros calls Hlog.
  pose proof (calls_succeed_log fn calls Hlog pre st H) as Hpre.
  split.
  - rewrite Hall. exact Hpre.
  - intros x post f st2 Hx. rewrite (Hstop x post f st2 Hx). simpl.
    specialize (Hlog x st1). rewrite Hx in Hlog. simpl in Hlog.
    rewrite Hlog, Hpre, <- app_assoc. reflexivity.
Qed.

(** C3. On a Fail, [andThen] and [mapSuccess] return the original Fail
    object (same address, error, title, message and stackTrace) and leave
    the store untouched whatever [fn] is: [fn] is not called, even when
    every call of it would change the world, allocate or throw. *)
Theorem fail_short_circuits_andThen_mapSuccess T R (f : Fail) (st : Store) :
  (forall fn : T -> M (TurboResponse R),
      andThen (@IsFail T f) fn st = (Returned (IsFail f), st))
  /\ (forall fn : T -> M R,
      mapSuccess (@IsFail T f) fn st = (Returned (IsFail f), st)).
Proof.
  split; intros fn; reflexivity.
Qed.

(** C4. [andThen] is associative:
    [andThen(andThen(r, f), g)] and [andThen(r, x => andThen(f(x), g))]
    have the same outcome and the same effects, from every store. *)
Theorem andThen_associative T U V
    (r : TurboResponse T) (f : T -> M (TurboResponse U)) (g : U -> M (TurboResponse V))
    (st : Store) :
  (r1 <- andThen r f ;; andThen r1 g) st
  = andThen r (fun x => r2 <- f x ;; andThen r2 g) st.
Proof.
  destruct r as [s|e]; reflexivity.
Qed.

(** C5. [unwrap] returns the payload of a Success, and on a Fail throws the
    value stored in its [error] field, that value itself and not an object
    wrapping it; neither case changes the store. *)
Theorem unwrap_returns_result_or_throws_error T (st : Store) :
  (forall s : Success T, unwrap (IsSuccess s) st = (Returned (result s), st))
  /\ (forall f : Fail, unwrap (@IsFail T f) st = (Thrown (error f), st)).
Proof.
  split; intros; reflexivity.
Qed.

(** C6. When the callback (or predicate) a combinator calls throws a value
    [e], the combinator throws that same [e] from the store the callback
    left: it neither catches it nor turns it into a Fail.  For [traverse]
    this holds at whichever item the first throw happens, the earlier calls
    having returned Successes. *)
Theorem callback_exception_propagates (e : unknown value) (st st' : Store) :
  (forall T R (s : Success T) (fn : T -> M (TurboResponse R)),
      fn (result s) st = (Thrown e, st') ->
      andThen (IsSuccess s) fn st = (Thrown e, st'))
  /\ (forall T R (s : Success T) (fn : T -> M (TurboResponse R)),
      fn (result s) st = (Thrown e, st') ->
      andThenAsync (IsSuccess s) fn st = (Thrown e, st'))
  /\ (forall T R (s : Success T) (fn : T -> M R),
      fn (result s) st = (Thrown e, st') ->
      mapSuccess (IsSuccess s) fn st = (Thrown e, st'))
  /\ (forall T (f : Fail) (fn : unknown value -> M (unknown value)),
      fn (error f) st = (Thrown e, st') ->
      mapFail (@IsFail T f) fn st = (Thrown e, st'))
  /\ (forall T (f : Fail) (fn : unknown value -> M (TurboResponse T)),
      fn (error f) st = (Thrown e, st') ->
      recover (IsFail f) fn st = (Thrown e, st'))
  /\ (forall T (f : Fail) (fn : unknown value -> M (TurboResponse T)),
      fn (error f) st = (Thrown e, st') ->
      recoverAsync (IsFail f) fn st = (Thrown e, st'))
  /\ (forall T (s : Success T) (predicate : T -> M bool) (err : unknown value),
      predicate (result s) st = (Thrown e, st') ->
      ensure (IsSuccess s) predicate err st = (Thrown e, st'))
  /\ (forall T R (fn : T -> M (TurboResponse R)) (pre : list T) (x : T) (post : list T)
             (st0 : Store) (rs : list R),
      calls_succeed fn pre st0 = Some (rs, st) ->
      fn x st = (Thrown e, st') ->
      traverse (pre ++ x :: post) fn st0 = (Thrown e, st')).
Proof.
  repeat split; intros.
  - simpl. assumption.
  - simpl. assumption.
  - simpl. unfold bind. now rewrite H.
  - simpl. unfold bind. now rewrite H.
  - simpl. assumption.
  - simpl. assumption.
  - simpl. unfold bind. now rewrite H.
  - unfold traverse. rewrite (traverse_loop_successes fn pre (x :: post) [] st0 H).
    simpl. unfold bind, await. now rewrite H0.
Qed.

(** C7. [maybeWhen] is gated on the presence of the handler for the variant
    at hand: with that handler supplied it runs it on the whole variant and
    gives its outcome; without it, also for a Success when only a [fail]
    handler was supplied, it runs [orElse]. *)
Theorem maybeWhen_handler_or_orElse T R (st : Store) :
  (forall (s : Success T) (h : Success T -> M R) (hf : option (Fail -> M R)) (e : unit -> M R),
      maybeWhen (IsSuccess s) (mkMaybeHandlers (Some h) hf e) st = h s st)
  /\ (forall (f : Fail) (hs : option (Success T -> M R)) (h : Fail -> M R) (e : unit -> M R),
      maybeWhen (IsFail f) (mkMaybeHandlers hs (Some h) e) st = h f st)
  /\ (forall (s : Success T) (hf : option (Fail -> M R)) (e : unit -> M R),
      maybeWhen (IsSuccess s) (mkMaybeHandlers None hf e) st = e tt st)
  /\ (forall (f : Fail) (hs : option (Success T -> M R)) (e : unit -> M R),
      maybeWhen (IsFail f) (mkMaybeHandlers hs None e) st = e tt st).
Proof.
  split; [|split; [|split]].
  - intros s h hf e. reflexivity.
  - intros f hs h e. destruct hs; reflexivity.
  - intros s hf e. destruct hf; reflexivity.
  - intros f hs e. destruct hs; reflexivity.
Qed.

(** C8. [ensure] returns a new Fail exactly for a Success whose payload
    fails the predicate: the Fail is freshly allocated, carries the given
    error, the title and message of the Success, and no stackTrace.  A
    Success that passes the predicate is returned as it is, and so is a
    Fail, for which the predicate is not evaluated (the store is untouched
    whatever the predicate would do).  Conversely, a Fail that [ensure]
    returns is either its argument or the new Fail of a Success whose
    payload failed the predicate. *)
Theorem ensure_new_fail_iff_predicate_false T
    (predicate : T -> M bool) (err : unknown value) (st : Store) :
  (forall (s : Success T) (st1 : Store),
      predicate (result s) st = (Returned false, st1) ->
      ensure (IsSuccess s) predicate err st
      = (Returned (IsFail (mkFail (next_addr st1) err None (s_title s) (s_message s))),
         mkStore (world st1) (S (next_addr st1))))
  /\ (forall (s : Success T) (st1 : Store),
      predicate (result s) st = (Returned true, st1) ->
      ensure (IsSuccess s) predicate err st = (Returned (IsSuccess s), st1))
  /\ (forall f : Fail,
      ensure (IsFail f) predicate err st = (Returned (IsFail f), st))
  /\ (forall (r : TurboResponse T) (f : Fail) (st' : Store),
      ensure r predicate err st = (Returned (IsFail f), st') ->
      (r = IsFail f /\ st' = st)
      \/ (exists s st1,
            r = IsSuccess s
            /\ predicate (result s) st = (Returned false, st1)
            /\ f = mkFail (next_addr st1) err None (s_title s) (s_message s)
            /\ st' = mkStore (world st1) (S (next_addr st1)))).
Proof.
  split; [|split; [|split]].
  - intros s st1 H. simpl. unfold bind. rewrite H. reflexivity.
  - intros s st1 H. simpl. unfold bind. rewrite H. reflexivity.
  - intros f. reflexivity.
  - intros [s|f0] f st' H; simpl in H.
    + right. unfold bind in H.
      destruct (predicate (result s) st) as [[[|]|e] st1] eqn:E; simpl in H;
        try discriminate.
      injection H as <- <-. now exists s, st1.
    + left. injection H as <- <-. split; reflexivity.
Qed.

(** *** Further properties: the batch combinators *)

Lemma forallb_isSuccess_successes T (ss : list (Success T)) :
  forallb (@isSuccess T) (map (@IsSuccess T) ss) = true.
Proof.
  induction ss as [|s ss IH]; simpl; [reflexivity | exact IH].
Qed.

(** X1. [sequence] never throws.  It returns a Success exactly when every
    element is a Success; the Success is then new and holds one payload per
    element, the payloads [getResult] reads off the elements; a Fail it
    returns is an element of the list, and nothing was allocated. *)
Theorem sequence_succeeds_iff_all_succeed T (rs : list (TurboResponse T)) (st : Store) :
  exists (r : TurboResponse (list T)) (st' : Store),
    sequence rs st = (Returned r, st')
    /\ isSuccess r = forallb (@isSuccess T) rs
    /\ (forall s, r = IsSuccess s ->
          map (@Some T) (result s) = map (@getResult T) rs
          /\ List.length (result s) = List.length rs
          /\ s_addr s = next_addr st
          /\ st' = mkStore (world st) (S (next_addr st)))
    /\ (forall f, r = IsFail f -> In (IsFail f) rs /\ st' = st).
Proof.
  destruct (responses_split rs) as [[ss ->]|(ss & f & rest & ->)].
  - exists (IsSuccess (mkSuccess (next_addr st) (map (@result T) ss) None None)),
           (mkStore (world st) (S (next_addr st))).
    split.
    { unfold sequence.
      rewrite <- (app_nil_r (map (@IsSuccess T) ss)), sequence_loop_successes.
      reflexivity. }
    split; [simpl; now rewrite forallb_isSuccess_successes|].
    split; [|discriminate].
    intros s H. injection H as <-. simpl.
    rewrite !map_map, !List.length_map. repeat split.
  - exists (IsFail f), st.
    split; [unfold sequence; now rewrite sequence_loop_successes|].
    split.
    { rewrite forallb_app. simpl. now rewrite andb_false_r. }
    split; [discriminate|].
    intros f' H. injection H as <-. split; [|reflexivity].
    apply in_or_app. right. now left.
Qed.

Lemma traverse_loop_pure T R (g : T -> TurboResponse R) (items : list T) :
  forall (acc : list R) (st : Store),
    traverse_loop (fun x => ret (g x)) items acc st
    = sequence_loop (map g items) acc st.
Proof.
  induction items as [|item items IH]; intros acc st; simpl.
  - reflexivity.
  - unfold bind, await, ret. destruct (g item) as [s|f]; [apply IH | reflexivity].
Qed.

(** X2. With a callback that has no effect, [traverse] is [sequence] of
    the mapped items. *)
Theorem traverse_pure_is_sequence_of_map T R
    (g : T -> TurboResponse R) (items : list T) (st : Store) :
  traverse items (fun x => ret (g x)) st = sequence (map g items) st.
Proof.
  unfold traverse, sequence. apply traverse_loop_pure.
Qed.

Lemma traverse_loop_always_success T R (g : T -> R) (t m : T -> option string)
    (items : list T) :
  forall (acc : list R) (st : Store),
    traverse_loop (fun x => s <- success (g x) (t x) (m x) ;; ret (IsSuccess s)) items acc st
    = (Returned (IsSuccess (mkSuccess (next_addr st + List.length items)
                              (acc ++ map g items) None None)),
       mkStore (world st) (S (next_addr st + List.length items))).
Proof.
  induction items as [|item items IH]; intros acc st; simpl.
  - now rewrite Nat.add_0_r, app_nil_r.
  - unfold bind at 1. unfold await. simpl.
    rewrite IH. simpl. now rewrite <- app_assoc, Nat.add_succ_r.
Qed.

(** X3. With a callback that wraps [g(item)] in a [success(...)] of any
    title and message, [traverse] returns a Success of the mapped items in
    input order, without title or message: the callbacks' titles and
    messages are dropped, and one object per item plus the final one is
    allocated. *)
Theorem traverse_of_successes_maps T R (g : T -> R) (t m : T -> option string)
    (items : list T) (st : Store) :
  traverse items (fun x => s <- success (g x) (t x) (m x) ;; ret (IsSuccess s)) st
  = (Returned (IsSuccess (mkSuccess (next_addr st + List.length items) (map g items) None None)),
     mkStore (world st) (S (next_addr st + List.length items))).
Proof.
  unfold traverse. now rewrite traverse_loop_always_success.
Qed.

Lemma sequence_fail_shape T (rs : list (TurboResponse T)) (st st' : Store) (f : Fail) :
  sequence rs st = (Returned (IsFail f), st') ->
  st' = st /\ exists ss rest, rs = map (@IsSuccess T) ss ++ IsFail f :: rest.
Proof.
  unfold sequence.
  destruct (responses_split rs) as [[ss ->]|(ss & f' & rest & ->)].
  - rewrite <- (app_nil_r (map (@IsSuccess T) ss)), sequence_loop_successes.
    discriminate.
  - rewrite sequence_loop_successes. simpl. unfold ret.
    intros H. injection H as <- <-. split; [reflexivity|]. now exists ss, rest.
Qed.

Lemma sequence_success_shape T (rs : list (TurboResponse T)) (st st' : Store)
    (s : Success (list T)) :
  sequence rs st = (Returned (IsSuccess s), st') ->
  exists ss, rs = map (@IsSuccess T) ss /\ result s = map (@result T) ss.
Proof.
  unfold sequence. intros H.
  destruct (responses_split rs) as [[ss ->]|(ss & f' & rest & ->)].
  - rewrite <- (app_nil_r (map (@IsSuccess T) ss)), sequence_loop_successes in H.
    injection H as <- _. exists ss. split; reflexivity.
  - rewrite sequence_loop_successes in H. discriminate.
Qed.

(** X4. [sequence] over a concatenation.  A Fail of the first list is the
    Fail of the whole; when the first list succeeds, a Fail of the second is
    the Fail of the whole; and when both succeed, the whole succeeds with
    the two payload lists one after the other. *)
Theorem sequence_of_concatenation T (rs1 rs2 : list (TurboResponse T)) (st : Store) :
  (forall f st1,
      sequence rs1 st = (Returned (IsFail f), st1) ->
      sequence (rs1 ++ rs2) st = (Returned (IsFail f), st))
  /\ (forall s1 st1 f st2,
      sequence rs1 st = (Returned (IsSuccess s1), st1) ->
      sequence rs2 st = (Returned (IsFail f), st2) ->
      sequence (rs1 ++ rs2) st = (Returned (IsFail f), st))
  /\ (forall s1 st1 s2 st2,
      sequence rs1 st = (Returned (IsSuccess s1), st1) ->
      sequence rs2 st = (Returned (IsSuccess s2), st2) ->
      sequence (rs1 ++ rs2) st
      = (Returned (IsSuccess (mkSuccess (next_addr st) (result s1 ++ result s2) None None)),
         mkStore (world st) (S (next_addr st)))).
Proof.
  split; [|split].
  - intros f st1 H.
    destruct (sequence_fail_shape _ _ H) as (_ & ss & rest & ->).
    unfold sequence. rewrite <- app_assoc, sequence_loop_successes. reflexivity.
  - intros s1 st1 f st2 H1 H2.
    destruct (sequence_success_shape _ _ H1) as (ss1 & -> & _).
    destruct (sequence_fail_shape _ _ H2) as (_ & ss2 & rest & ->).
    unfold sequence. rewrite !sequence_loop_successes. reflexivity.
  - intros s1 st1 s2 st2 H1 H2.
    destruct (sequence_success_shape _ _ H1) as (ss1 & -> & ->).
    destruct (sequence_success_shape _ _ H2) as (ss2 & -> & ->).
    unfold sequence.
    rewrite sequence_loop_successes.
    rewrite <- (app_nil_r (map (@IsSuccess T) ss2)), sequence_loop_successes.
    reflexivity.
Qed.

(** *** Further properties: transformations *)

(** X5. Two [ensure]s in a row with effect-free predicates and the same
    error are one [ensure] with the conjunction of the predicates; and
    repeating an [ensure] changes nothing, whatever error the second one is
    given: what the first returned is returned again, with no new object. *)
Theorem ensure_twice T (p q : T -> bool) (e e' : unknown value)
    (r : TurboResponse T) (st : Store) :
  (r1 <- ensure r (fun x => ret (p x)) e ;; ensure r1 (fun x => ret (q x)) e) st
  = ensure r (fun x => ret (p x && q x)) e st
  /\ (r1 <- ensure r (fun x => ret (p x)) e ;; ensure r1 (fun x => ret (p x)) e') st
     = ensure r (fun x => ret (p x)) e st.
Proof.
  destruct r as [s|f]; simpl; unfold bind, ret; simpl.
  - destruct (p (result s)) eqn:Hp; simpl; unfold bind; simpl; rewrite ?Hp;
      destruct (q (result s)); split; reflexivity.
  - split; reflexivity.
Qed.

(** X6. [swap] twice gives back the variant, the payload, the title and
    the message in a new object; the stackTrace of a Fail is lost, since
    [swap] never passes one on. *)
Theorem swap_twice (st : Store) :
  (forall s : Success (unknown value),
      (r1 <- swap (IsSuccess s) ;; swap r1) st
      = (Returned (IsSuccess (mkSuccess (S (next_addr st)) (result s) (s_title s) (s_message s))),
         mkStore (world st) (S (S (next_addr st)))))
  /\ (forall f : Fail,
      (r1 <- swap (IsFail f) ;; swap r1) st
      = (Returned (IsFail (mkFail (S (next_addr st)) (error f) None (f_title f) (f_message f))),
         mkStore (world st) (S (S (next_addr st))))).
Proof.
  split; intros; reflexivity.
Qed.

(** X7. Whatever the callbacks do, a result that [mapSuccess], [mapFail],
    [ensure] or [swap] returns has the title and the message of the
    argument.  [mapSuccess] and [mapFail] keep the variant, and [mapFail]
    the stackTrace; [swap] exchanges the variants. *)
Theorem transformations_keep_title_and_message (st st' : Store) :
  (forall T R (r : TurboResponse T) (fn : T -> M R) (r' : TurboResponse R),
      mapSuccess r fn st = (Returned r', st') ->
      getTitle r' = getTitle r /\ getMessage r' = getMessage r
      /\ isSuccess r' = isSuccess r)
  /\ (forall T (r : TurboResponse T) (fn : unknown value -> M (unknown value))
             (r' : TurboResponse T),
      mapFail r fn st = (Returned r', st') ->
      getTitle r' = getTitle r /\ getMessage r' = getMessage r
      /\ isSuccess r' = isSuccess r
      /\ (forall f f', r = IsFail f -> r' = IsFail f' -> stackTrace f' = stackTrace f))
  /\ (forall T (r : TurboResponse T) (predicate : T -> M bool) (err : unknown value)
             (r' : TurboResponse T),
      ensure r predicate err st = (Returned r', st') ->
      getTitle r' = getTitle r /\ getMessage r' = getMessage r)
  /\ (forall (r r' : TurboResponse (unknown value)),
      swap r st = (Returned r', st') ->
      getTitle r' = getTitle r /\ getMessage r' = getMessage r
      /\ isSuccess r' = isFail r).
Proof.
  split; [|split; [|split]].
  - intros T R [s|f] fn r' H; simpl in H.
    + unfold bind in H. destruct (fn (result s) st) as [[x|e] st1]; [|discriminate].
      injection H as <- _. repeat split.
    + injection H as <- _. repeat split.
  - intros T [s|f] fn r' H; simpl in H.
    + injection H as <- _. repeat split. intros f f' H; discriminate.
    + unfold bind in H. destruct (fn (error f) st) as [[x|e] st1]; [|discriminate].
      injection H as <- _. repeat split.
      intros f0 f' H0 H1. injection H0 as <-. injection H1 as <-. reflexivity.
  - intros T [s|f] predicate err r' H; simpl in H.
    + unfold bind in H.
      destruct (predicate (result s) st) as [[[|]|e] st1]; [| |discriminate];
        injection H as <- _; split; reflexivity.
    + injection H as <- _. split; reflexivity.
  - intros [s|f] r' H; injection H as <- _; repeat split.
Qed.

(** X8. [mapSuccess] obeys the functor laws as far as the accessors can
    tell: with effect-free functions, mapping [f] and then [g] gives a
    result with the same payload, error, title and message as mapping their
    composition, and mapping the identity gives one with those of the
    argument.  Only the address of a mapped Success is new. *)
Theorem mapSuccess_functor_laws T U V (f : T -> U) (g : U -> V)
    (r : TurboResponse T) (st : Store) :
  (exists r1 st1 r2 st2,
      (r' <- mapSuccess r (fun x => ret (f x)) ;; mapSuccess r' (fun y => ret (g y))) st
      = (Returned r1, st1)
      /\ mapSuccess r (fun x => ret (g (f x))) st = (Returned r2, st2)
      /\ getResult r1 = getResult r2 /\ getError r1 = getError r2
      /\ getTitle r1 = getTitle r2 /\ getMessage r1 = getMessage r2
      /\ world st1 = world st2)
  /\ (exists r1 st1,
      mapSuccess r (fun x => ret x) st = (Returned r1, st1)
      /\ getResult r1 = getResult r /\ getError r1 = getError r
      /\ getTitle r1 = getTitle r /\ getMessage r1 = getMessage r
      /\ world st1 = world st).
Proof.
  destruct r as [s|e]; split.
  - do 4 eexists. split; [reflexivity|]. split; [reflexivity|]. repeat split.
  - do 2 eexists. split; [reflexivity|]. repeat split.
  - do 4 eexists. split; [reflexivity|]. split; [reflexivity|]. repeat split.
  - do 2 eexists. split; [reflexivity|]. repeat split.
Qed.

(** *** Further properties: matching and unwrapping *)

(** X9. With both optional handlers supplied, [maybeWhen] is [when] and
    [orElse] is not run; with none supplied it is [orElse]; and [fold] is
    [when] with handlers that look at the payload only. *)
Theorem maybeWhen_and_fold_through_when T R (r : TurboResponse T) (st : Store) :
  (forall (hs : Success T -> M R) (hf : Fail -> M R) (e : unit -> M R),
      maybeWhen r (mkMaybeHandlers (Some hs) (Some hf) e) st = when r (mkHandlers hs hf) st)
  /\ (forall e : unit -> M R,
      maybeWhen r (mkMaybeHandlers None None e) st = e tt st)
  /\ (forall (onSuccess : T -> M R) (onFail : unknown value -> M R),
      fold r onSuccess onFail st
      = when r (mkHandlers (fun s => onSuccess (result s)) (fun f => onFail (error f))) st).
Proof.
  destruct r as [s|f]; repeat split.
Qed.

(** X10. The unwrapping helpers agree.  When [unwrap] returns [x], the
    store is unchanged, [getResult] is [x], and [unwrapOr] and
    [unwrapOrCompute] give [x] without running [compute]; when [unwrap]
    throws [e], the store is unchanged, [e] is what [getError] reads,
    [getResult] is undefined, [unwrapOr] gives the default and
    [unwrapOrCompute] is [compute()]. *)
Theorem unwrap_family_agrees T (r : TurboResponse T) (st : Store) :
  (forall (x : T) (st' : Store),
      unwrap r st = (Returned x, st') ->
      st' = st /\ getResult r = Some x
      /\ (forall d, unwrapOr r d = x)
      /\ (forall compute, unwrapOrCompute r compute st = (Returned x, st)))
  /\ (forall (e : unknown value) (st' : Store),
      unwrap r st = (Thrown e, st') ->
      st' = st /\ getResult r = None /\ getError r = e
      /\ (forall d, unwrapOr r d = d)
      /\ (forall compute, unwrapOrCompute r compute st = compute tt st)).
Proof.
  destruct r as [s|f]; split; intros x st' H; try discriminate;
    injection H as <- <-; repeat split.
Qed.

(** X11. [unwrapOr] is [unwrap] after a [recover] that substitutes a
    Success of the default; and [unwrap] after a [recover] whose handler
    returns a Success on every error never throws. *)
Theorem recover_then_unwrap T (r : TurboResponse T) (st : Store)
    (fn : unknown value -> M (TurboResponse T))
    (Hfn : forall e st0, exists s st1, fn e st0 = (Returned (IsSuccess s), st1)) :
  (exists x st', (r' <- recover r fn ;; unwrap r') st = (Returned x, st'))
  /\ (forall d : Success T,
      (r' <- recover r (fun _ => ret (IsSuccess d)) ;; unwrap r') st
      = (Returned (unwrapOr r (result d)), st)).
Proof.
  split.
  - destruct r as [s|f]; simpl.
    + now exists (result s), st.
    + unfold bind. destruct (Hfn (error f) st) as (s & st1 & ->).
      now exists (result s), st1.
  - intros d. destruct r as [s|f]; reflexivity.
Qed.

(** X12. [getError] gives [undefined] for a Success and for a Fail whose
    error is [undefined], and in no other case; [getResult] gives
    [undefined] for a Fail and for a Success whose payload is [undefined],
    and in no other case.  Neither accessor tells the two apart. *)
Theorem getError_undefined_iff :
  (forall T (r : TurboResponse T),
      getError r = Undefined
      <-> isSuccess r = true \/ exists f, r = IsFail f /\ error f = Undefined)
  /\ (forall r : TurboResponse (unknown value),
      or_undefined (getResult r) = Undefined
      <-> isFail r = true \/ exists s, r = IsSuccess s /\ result s = Undefined).
Proof.
  split.
  - intros T [s|f]; simpl; split.
    + intros _. now left.
    + reflexivity.
    + intros H. right. now exists f.
    + intros [H|(f' & H & He)]; [discriminate | congruence].
  - intros [s|f]; simpl; split.
    + intros H. right. now exists s.
    + intros [H|(s' & H & Hs)]; [discriminate | congruence].
    + intros _. now left.
    + reflexivity.
Qed.

(** X13. [recover] is associative, like [andThen]: recovering with [f]
    and then with [g] is recovering once with [f] followed by a recovery
    with [g]. *)
Theorem recover_associative T (r : TurboResponse T)
    (f g : unknown value -> M (TurboResponse T)) (st : Store) :
  (r1 <- recover r f ;; recover r1 g) st
  = recover r (fun e => r2 <- f e ;; recover r2 g) st.
Proof.
  destruct r as [s|e]; reflexivity.
Qed.

(** X14. On a Success, [mapFail], [recover] and [recoverAsync] return the
    argument itself and [unwrapOrCompute] its payload, in an untouched
    store: the callback is not called, whatever it would do. *)
Theorem success_skips_the_fail_callbacks T (s : Success T) (st : Store) :
  (forall fn, mapFail (IsSuccess s) fn st = (Returned (IsSuccess s), st))
  /\ (forall fn, recover (IsSuccess s) fn st = (Returned (IsSuccess s), st))
  /\ (forall fn, recoverAsync (IsSuccess s) fn st = (Returned (IsSuccess s), st))
  /\ (forall compute, unwrapOrCompute (IsSuccess s) compute st = (Returned (result s), st)).
Proof.
  repeat split.
Qed.

End Model.

Arguments IsSuccess {value T} s.
Arguments IsFail {value T} f.
Arguments Returned {value A} a.
Arguments Thrown {value A} e.
Arguments ret {value World A} a.
Arguments success {value World T} result title message.

(** *** Concrete runs *)

(** The callback of the example
    [traverse([1,2,3], async i => i === 2 ? fail("bad") : success(i))],
    which also records each call in the world. *)
Definition fail_on_two (i : nat) : M string (list nat) (TurboResponse string nat) :=
  fun st =>
    let st1 := mkStore (world st ++ [i]) (next_addr st) in
    if i =? 2
    then bind (fail (Defined "bad"%string) None None None) (fun f => ret (IsFail f)) st1
    else bind (success i None None) (fun s => ret (IsSuccess s)) st1.

(** The same callback as written in the example: it leaves the world
    alone. *)
Definition fail_on_two_silent (i : nat) : M string unit (TurboResponse string nat) :=
  if i =? 2
  then bind (fail (Defined "bad"%string) None None None) (fun f => ret (IsFail f))
  else bind (success i None None) (fun s => ret (IsSuccess s)).

(** [traverse] on that example: the Fail made by the call on 2 comes back,
    from the silent callback as from the recording one, and the log of the
    latter shows the calls on 1 and 2 only. *)
Lemma traverse_stops_at_two :
  traverse [1; 2; 3] fail_on_two_silent (mkStore tt 0)
  = (Returned (IsFail (mkFail 1 (Defined "bad"%string) None None None)), mkStore tt 2)
  /\ traverse [1; 2; 3] fail_on_two (mkStore [] 0)
     = (Returned (IsFail (mkFail 1 (Defined "bad"%string) None None None)), mkStore [1; 2] 2)
  /\ world (snd (traverse [1; 2; 3] fail_on_two (mkStore [] 0))) = [1; 2].
Proof.
  assert (Hlog : forall item st,
             world (snd (fail_on_two item st)) = world st ++ [item]).
  { intros item st. unfold fail_on_two. destruct (item =? 2); reflexivity. }
  split; [|split].
  - exact (proj1 (proj2
             (proj1 (traverse_sequential_until_first_fail fail_on_two_silent)
                [1] (mkStore tt 0) [1] (mkStore tt 1) eq_refl))
             2 [3] (mkFail 1 (Defined "bad"%string) None None None) (mkStore tt 2)
             eq_refl).
  - exact (proj1 (proj2
             (proj1 (traverse_sequential_until_first_fail fail_on_two)
                [1] (mkStore [] 0) [1] (mkStore [1] 1) eq_refl))
             2 [3] (mkFail 1 (Defined "bad"%string) None None None) (mkStore [1; 2] 2)
             eq_refl).
  - exact (proj2 (proj2 (proj2
             (proj1 (traverse_sequential_until_first_fail fail_on_two)
                [1] (mkStore [] 0) [1] (mkStore [1] 1) eq_refl))
             (fun w => w) Hlog)
             2 [3] (mkFail 1 (Defined "bad"%string) None None None) (mkStore [1; 2] 2)
             eq_refl).
Defined.

(** A callback that throws the string "boom", at any type. *)
Definition boom {A B : Type} (_ : A) : M string unit B :=
  throw (Defined "boom"%string).

(** A callback of [traverse] that throws on 2. *)
Definition boom_on_two (i : nat) : M string unit (TurboResponse string nat) :=
  if i =? 2 then throw (Defined "boom"%string)
  else bind (success i None None) (fun s => ret (IsSuccess s)).

(** Each combinator lets the thrown "boom" through. *)
Lemma boom_propagates :
  let e : unknown string := Defined "boom"%string in
  let st := mkStore tt 1 in
  let s := mkSuccess 0 7 None None in
  let f := mkFail 0 (Defined "cause"%string) None None None in
  andThen (IsSuccess s) (boom (B := TurboResponse string nat)) st = (Thrown e, st)
  /\ andThenAsync (IsSuccess s) (boom (B := TurboResponse string nat)) st = (Thrown e, st)
  /\ mapSuccess (IsSuccess s) (boom (B := nat)) st = (Thrown e, st)
  /\ mapFail (@IsFail string nat f) (boom (B := unknown string)) st = (Thrown e, st)
  /\ recover (IsFail f) (boom (B := TurboResponse string nat)) st = (Thrown e, st)
  /\ recoverAsync (IsFail f) (boom (B := TurboResponse string nat)) st = (Thrown e, st)
  /\ ensure (IsSuccess s) (boom (B := bool)) (Defined "unused"%string) st = (Thrown e, st)
  /\ traverse [1; 2; 3] boom_on_two (mkStore tt 0) = (Thrown e, st).
Proof.
  intros e st s f.
  destruct (callback_exception_propagates e st st)
    as (H1 & H2 & H3 & H4 & H5 & H6 & H7 & H8).
  split; [apply H1; reflexivity|].
  split; [apply H2; reflexivity|].
  split; [apply H3; reflexivity|].
  split; [apply H4; reflexivity|].
  split; [apply H5; reflexivity|].
  split; [apply H6; reflexivity|].
  split; [apply H7; reflexivity|].
  exact (H8 nat nat boom_on_two [1] 2 [3] (mkStore tt 0) [1] eq_refl eq_refl).
Defined.

(** The predicate of the example [ensure(r, x => x >= 18, "too young")]. *)
Definition adult (x : nat) : M string unit bool := ret (18 <=? x).

(** [ensure] on the example: 10 gives a new Fail keeping title and message,
    20 gives the Success back, and a Fail is given back as well. *)
Lemma ensure_too_young :
  let st := mkStore tt 1 in
  let young := mkSuccess 0 10 (Some "age"%string) (Some "checked"%string) in
  let grown := mkSuccess 0 20 (Some "age"%string) (Some "checked"%string) in
  ensure (IsSuccess young) adult (Defined "too young"%string) st
  = (Returned (IsFail (mkFail 1 (Defined "too young"%string) None
                         (Some "age"%string) (Some "checked"%string))),
     mkStore tt 2)
  /\ ensure (IsSuccess grown) adult (Defined "too young"%string) st
     = (Returned (IsSuccess grown), st).
Proof.
  intros st young grown.
  destruct (ensure_new_fail_iff_predicate_false adult (Defined "too young"%string) st)
    as (Hfalse & Htrue & _ & _).
  split.
  - exact (Hfalse young st eq_refl).
  - exact (Htrue grown st eq_refl).
Defined.

(** [sequence] over the concatenations of the three kinds. *)
Lemma sequence_of_concatenation_runs :
  let st := mkStore tt 5 in
  let one : TurboResponse string nat := IsSuccess (mkSuccess 0 1 None None) in
  let two : TurboResponse string nat := IsSuccess (mkSuccess 1 2 None None) in
  let boomed := mkFail 2 (Defined "boom"%string) None None None in
  sequence ([one; IsFail boomed] ++ [two]) st = (Returned (IsFail boomed), st)
  /\ sequence ([one] ++ [IsFail boomed; two]) st = (Returned (IsFail boomed), st)
  /\ sequence ([one] ++ [two]) st
     = (Returned (IsSuccess (mkSuccess 5 ([1] ++ [2]) None None)), mkStore tt 6).
Proof.
  intros st one two boomed.
  split; [|split].
  - exact (proj1 (sequence_of_concatenation [one; IsFail boomed] [two] st)
             boomed st eq_refl).
  - exact (proj1 (proj2 (sequence_of_concatenation [one] [IsFail boomed; two] st))
             (mkSuccess 5 [1] None None) (mkStore tt 6) boomed st eq_refl eq_refl).
  - exact (proj2 (proj2 (sequence_of_concatenation [one] [two] st))
             (mkSuccess 5 [1] None None) (mkStore tt 6)
             (mkSuccess 5 [2] None None) (mkStore tt 6) eq_refl eq_refl).
Defined.

(** Title and message through [mapSuccess], [mapFail], [ensure] and [swap]. *)
Lemma title_and_message_kept_runs :
  let st := mkStore tt 1 in
  let st' := mkStore tt 2 in
  let aged := mkSuccess 0 10 (Some "age"%string) (Some "checked"%string) in
  let lost := mkFail 0 (Defined "lost"%string) (Some "trace"%string)
                (Some "io"%string) (Some "disk"%string) in
  let tagged : unknown string := Defined "found"%string in
  let mapped : TurboResponse string nat :=
    IsSuccess (mkSuccess 1 11 (Some "age"%string) (Some "checked"%string)) in
  let retagged : TurboResponse string nat :=
    IsFail (mkFail 1 tagged (Some "trace"%string) (Some "io"%string) (Some "disk"%string)) in
  let refused : TurboResponse string nat :=
    IsFail (mkFail 1 (Defined "too young"%string) None
              (Some "age"%string) (Some "checked"%string)) in
  let swapped : TurboResponse string (unknown string) :=
    IsSuccess (mkSuccess 1 (Defined "lost"%string) (Some "io"%string) (Some "disk"%string)) in
  getTitle mapped = Some "age"%string
  /\ getTitle retagged = Some "io"%string
  /\ getMessage refused = Some "checked"%string
  /\ isSuccess swapped = true.
Proof.
  intros st st' aged lost tagged mapped retagged refused swapped.
  destruct (transformations_keep_title_and_message string st st')
    as (Hmap & HmapFail & Hensure & Hswap).
  split; [|split; [|split]].
  - exact (proj1 (Hmap nat nat (IsSuccess aged) (fun x => ret (x + 1)) mapped eq_refl)).
  - exact (proj1 (HmapFail nat (IsFail lost) (fun _ => ret tagged) retagged eq_refl)).
  - exact (proj2 (Hensure nat (IsSuccess aged) adult (Defined "too young"%string)
                    refused eq_refl)).
  - exact (proj2 (proj2 (Hswap (IsFail lost) swapped eq_refl))).
Defined.

(** The unwrapping helpers on [success(7)] and on [fail("x")]. *)
Lemma unwrap_family_runs :
  let st := mkStore tt 1 in
  let seven : TurboResponse string nat := IsSuccess (mkSuccess 0 7 None None) in
  let failed : TurboResponse string nat :=
    IsFail (mkFail 0 (Defined "x"%string) None None None) in
  (getResult seven = Some 7 /\ unwrapOr seven 99 = 7)
  /\ (getError failed = Defined "x"%string /\ unwrapOr failed 99 = 99).
Proof.
  intros st seven failed. split.
  - destruct (proj1 (unwrap_family_agrees seven st) 7 st eq_refl) as (_ & H1 & H2 & _).
    split; [exact H1 | exact (H2 99)].
  - destruct (proj2 (unwrap_family_agrees failed st) (Defined "x"%string) st eq_refl)
      as (_ & _ & H1 & H2 & _).
    split; [exact H1 | exact (H2 99)].
Defined.

(** A handler that recovers with the Success of a default. *)
Definition with_default (d : Success nat) (_ : unknown string)
  : M string unit (TurboResponse string nat) :=
  ret (IsSuccess d).

(** [unwrap] after [recover] on [fail("x")] with the default 99. *)
Lemma recover_then_unwrap_runs :
  let st := mkStore tt 1 in
  let failed : TurboResponse string nat :=
    IsFail (mkFail 0 (Defined "x"%string) None None None) in
  let d := mkSuccess 0 99 None None in
  bind (recover failed (fun _ => ret (IsSuccess d))) (fun r' => unwrap r') st
  = (Returned (unwrapOr failed 99), st).
Proof.
  intros st failed d.
  assert (Hfn : forall (e : unknown string) (st0 : Store unit),
             exists s st1, with_default d e st0 = (Returned (IsSuccess s), st1)).
  { intros e st0. exists d, st0. reflexivity. }
  exact (proj2 (recover_then_unwrap failed st (with_default d) Hfn) d).
Defined.

End TurboResponse.

(** ** The TurboException class *)

Module TurboException.

Section Model.

Variable value : Type.   (* the JavaScript values other than undefined and null *)

(** The [options] object of the constructor.  Its four properties are
    optional: a missing [title], [message] or [stackTrace] is [None], a
    missing [error] reads as [Undefined]. *)
Record Options : Type := mkOptions {
  opt_error : unknown value;
  opt_title : option string;
  opt_message : option string;
  opt_stackTrace : option string
}.

(** The fields of an instance.  [message] is declared [string], not
    optional; [stack], which V8's [captureStackTrace] fills in, is left
    out. *)
Record TurboException : Type := mkTurboException {
  name : string;
  error : unknown value;
  title : option string;
  message : string;
  stackTrace : option string
}.

(** JavaScript's [a || b] for [a : string | undefined]: [a] when it is
    truthy, that is a string other than the empty one, and [b] otherwise. *)
Definition or_string (a : option string) (b : string) : string :=
  match a with
  | Some s => if (s =? "")%string then b else s
  | None => b
  end.

Definition constructor (options : Options) : TurboException :=
  {| name := "TurboException";
     error := opt_error options;
     title := opt_title options;
     message := or_string (opt_message options) "An error occurred";
     stackTrace := opt_stackTrace options |}.

(** [this.title !== undefined && this.title !== null], on [title?: string]. *)
Definition hasTitle (this : TurboException) : bool :=
  match title this with
  | Some _ => true
  | None => false
  end.

(** [this.message !== undefined && this.message !== null && this.message !== ''];
    a [string] is neither [undefined] nor [null]. *)
Definition hasMessage (this : TurboException) : bool :=
  negb (message this =? "")%string.

(** [this.error !== undefined && this.error !== null] *)
Definition hasError (this : TurboException) : bool :=
  match error this with
  | Undefined => false
  | Null => false
  | Defined _ => true
  end.

(** *** Properties *)

Lemma or_string_nonempty (a : option string) (b : string) :
  b <> ""%string -> or_string a b <> ""%string.
Proof.
  intros Hb. unfold or_string. destruct a as [s|]; [|exact Hb].
  destruct (String.eqb_spec s ""); assumption.
Qed.

Lemma hasMessage_iff (this : TurboException) :
  hasMessage this = true <-> message this <> ""%string.
Proof.
  unfold hasMessage. rewrite negb_true_iff. apply String.eqb_neq.
Qed.

(** C9. Constructed without a message, a TurboException stores the text
    "An error occurred", so its [hasMessage] is true.  On every instance
    [hasTitle] is true iff a title is set, [hasError] is true iff the
    error is set (it is neither [undefined] nor [null]), and [hasMessage] is
    true iff the stored message is not the empty string. *)
Theorem exception_default_message_and_queries :
  (forall (e : unknown value) (t st : option string),
      message (constructor (mkOptions e t None st)) = "An error occurred"%string
      /\ hasMessage (constructor (mkOptions e t None st)) = true)
  /\ (forall this : TurboException,
      hasTitle this = true <-> exists t, title this = Some t)
  /\ (forall this : TurboException,
      hasError this = true <-> error this <> Undefined /\ error this <> Null)
  /\ (forall this : TurboException,
      hasMessage this = true <-> message this <> ""%string).
Proof.
  split; [|split; [|split]].
  - intros e t st. split; reflexivity.
  - intros this. unfold hasTitle. destruct (title this) as [t|].
    + split; [intros _; now exists t | reflexivity].
    + split; [discriminate | intros [t H]; discriminate].
  - intros this. unfold hasError. destruct (error this) as [| |v].
    + split; [discriminate | intros [H _]; now contradiction H].
    + split; [discriminate | intros [_ H]; now contradiction H].
    + split; [intros _; split; discriminate | reflexivity].
  - exact hasMessage_iff.
Qed.

(** C10. Constructed with the empty string as message, a TurboException
    stores "An error occurred" instead; so whatever the options are,
    [hasMessage] is true on the instance the constructor makes. *)
Theorem exception_empty_message_falls_back :
  (forall (e : unknown value) (t st : option string),
      message (constructor (mkOptions e t (Some ""%string) st))
      = "An error occurred"%string)
  /\ (forall options : Options, hasMessage (constructor options) = true).
Proof.
  split.
  - intros e t st. reflexivity.
  - intros options. apply hasMessage_iff. simpl.
    apply or_string_nonempty. discriminate.
Qed.

(** X15. The constructor names the instance "TurboException" and stores
    the error, the title and the stackTrace of the options as they are; a
    message other than the empty string is stored as it is, so the stored
    message is the fallback text exactly when the message is missing, empty
    or that text itself; and any title, the empty string too, makes
    [hasTitle] true. *)
Theorem constructor_stores_options (options : Options) :
  name (constructor options) = "TurboException"%string
  /\ error (constructor options) = opt_error options
  /\ title (constructor options) = opt_title options
  /\ stackTrace (constructor options) = opt_stackTrace options
  /\ (forall s, opt_message options = Some s -> s <> ""%string ->
        message (constructor options) = s)
  /\ (message (constructor options) = "An error occurred"%string
      <-> opt_message options = None
          \/ opt_message options = Some ""%string
          \/ opt_message options = Some "An error occurred"%string)
  /\ (forall t, opt_title options = Some t -> hasTitle (constructor options) = true).
Proof.
  destruct options as [e t m st]. simpl. repeat split.
  - intros s -> Hs. simpl. destruct (String.eqb_spec s ""); [contradiction | reflexivity].
  - destruct m as [s|]; simpl; [|now left].
    destruct (String.eqb_spec s "") as [->|Hs]; [now (right; left)|].
    intros ->. now (right; right).
  - intros [->|[->| ->]]; reflexivity.
  - intros t' ->. reflexivity.
Qed.

End Model.

(** A message is kept, an empty title counts as a title. *)
Lemma constructor_keeps_disk_full :
  let options : Options string :=
    mkOptions Null (Some ""%string) (Some "disk full"%string) None in
  message (constructor options) = "disk full"%string
  /\ hasTitle (constructor options) = true.
Proof.
  intros options.
  destruct (constructor_stores_options options) as (_ & _ & _ & _ & Hm & _ & Ht).
  split.
  - apply Hm; [reflexivity | discriminate].
  - exact (Ht ""%string eq_refl).
Defined.

End TurboException.
